(** * snake: grid elements, logic clock, snake, projectiles and turret

  A shallow embedding of the simulation core of the [snake] package:

  - [snake/elements.py]: [Point] (clone, collision), [RandomPoint] and
    [GridElement] (construction, rect, render_pos);
  - [snake/main.py]: [handle_quit], the event handling, the fixed-step
    logic tick of [MainApp._main_loop] and [MainApp.run];
  - [snake/snake.py]: the [Snake] moved by the arrow keys;
  - [snake/experimental/projectile.py]: [Projectile] and
    [ProjectileManager];
  - [snake/experimental/turret.py]: the search for the turret in the
    terrain.

  Python integers are unbounded and are modelled by [Z].  Python floats
  and the components of [pygame.math.Vector2] are doubles; the clock
  and the projectiles only add, multiply and compare them, and this
  arithmetic is modelled exactly, by rationals ([Q]).  The aim of the
  turret goes through the sines and cosines of the C library, computed
  on doubles; it is not modelled. *)

From Stdlib Require Import ZArith QArith Qfield Lia List Bool.
From Stdlib Require Lqa.
From stdpp Require Import base option list gmap.

(** ** pygame constants and events

  [pygame.event.Event] objects are read through their [type] and [key]
  attributes only.  The numeric values are those of pygame 2 (SDL 2);
  the development only relies on them being pairwise distinct. *)
Module Pygame.

Definition QUIT : Z := 256.
Definition KEYDOWN : Z := 768.
Definition KEYUP : Z := 769.

Definition K_q : Z := 113.
Definition K_RIGHT : Z := 1073741903.
Definition K_LEFT : Z := 1073741904.
Definition K_DOWN : Z := 1073741905.
Definition K_UP : Z := 1073741906.

Record Event : Type := mkEvent { type : Z; key : Z }.

(** [pygame.rect.Rect(left, top, width, height)]. *)
Record Rect : Type := mkRect { left : Z; top : Z; width : Z; height : Z }.

End Pygame.

(** ** snake/elements.py *)
Module Elements.
Import Pygame.
Local Open Scope Z_scope.

(** Modelled from the spec: [snake.enums.State] is not part of the
    sources at hand; the spec's DirectionState is "one of
    {Up, Down, Left, Right}". *)
Inductive State : Type := UP | DOWN | RIGHT | LEFT.

Definition State_eqb (a b : State) : bool :=
  match a, b with
  | UP, UP | DOWN, DOWN | RIGHT, RIGHT | LEFT, LEFT => true
  | _, _ => false
  end.

(** [@dataclass class Point: x: int; y: int]. *)
Record Point : Type := mkPoint { x : Z; y : Z }.

(** [Point.clone]: the coordinates are copied into locals, one of them
    is moved by one according to the state, and a new [Point] is built
    from them. *)
Definition clone (self : Point) (state : State) : Point :=
  let new_x := x self in
  let new_y := y self in
  if State_eqb state UP then mkPoint new_x (new_y - 1)
  else if State_eqb state DOWN then mkPoint new_x (new_y + 1)
  else if State_eqb state RIGHT then mkPoint (new_x + 1) new_y
  else if State_eqb state LEFT then mkPoint (new_x - 1) new_y
  else mkPoint new_x new_y.

(** [Point.collision]. *)
Definition collision (self other : Point) : bool :=
  (x self =? x other) && (y self =? y other).

(** *** Points as objects

    [Point] is a mutable dataclass.  To state that [clone] leaves its
    receiver alone, points live in a store indexed by references; a
    constructor call allocates the next free reference. *)
Abbreviation store := (list Point).

Definition alloc (p : Point) (h : store) : nat * store :=
  (length h, h ++ [p]).

(** [r.clone(state)] on the object at reference [r]: reads the receiver
    and allocates the result.  [None] when [r] is not an object. *)
Definition clone_obj (r : nat) (state : State) (h : store)
  : option (nat * store) :=
  match h !! r with
  | Some self => Some (alloc (clone self state) h)
  | None => None
  end.

(** Modelled from the spec: [snake.grid.Grid] is not part of the
    sources at hand; [GridElement] reads its [size] (columns, rows)
    and [step] (the cell size in pixels). *)
Record Grid : Type := mkGrid { size : Z * Z; step : Z }.

(** [GridElement]: the grid it lives in and its cell [p]. *)
Record GridElement : Type := mkGridElement { _grid : Grid; p : Point }.

(** [GridElement.rect]. *)
Definition rect (self : GridElement) : Rect :=
  mkRect (x (p self) * step (_grid self))
         (y (p self) * step (_grid self))
         (step (_grid self))
         (step (_grid self)).

(** [GridElement.render_pos]. *)
Definition render_pos (self : GridElement) : Z * Z :=
  (x (p self) * step (_grid self), y (p self) * step (_grid self)).

(** [n] successive clones with the same state, each applied to the
    result of the previous one. *)
Fixpoint clone_n (n : nat) (self : Point) (state : State) : Point :=
  match n with
  | O => self
  | S n' => clone_n n' (clone self state) state
  end.

End Elements.

(** ** snake/main.py *)
Module Main.
Import Pygame.
Local Open Scope Q_scope.

(** [MainApp.TICK_STEP = 250.0], in milliseconds. *)
Definition TICK_STEP : Q := 250.

(** How a call ends: normally, or by raising [QuitApplication].  The
    state reached at the raise is kept, since the mutations made before
    it are not undone. *)
Inductive outcome (A : Type) : Type :=
| Returned (a : A)
| Quit (a : A).
Arguments Returned {A} a.
Arguments Quit {A} a.

(** The state a call ends in. *)
Definition after {A : Type} (o : outcome A) : A :=
  match o with
  | Returned a => a
  | Quit a => a
  end.

(** [handle_quit]: [true] when the event makes it raise
    [QuitApplication]. *)
Definition handle_quit (event : Event) : bool :=
  if (type event =? QUIT)%Z then true
  else if ((type event =? KEYUP) && (key event =? K_q))%Z then true
  else false.

Section MainApp.

(** The snake of [snake.grid.Grid] is not part of the sources at hand;
    the loop only calls its [update_state] and [handle_event]. *)
Variable Snake : Type.
Variable update_state : Snake -> Snake.
Variable handle_event : Event -> Snake -> Snake.

(** The part of [MainApp] the loop reads and writes. *)
Record MainApp : Type := mkMainApp { _next_tick : Q; _snake : Snake }.

(** The guard [time_ms() > self._next_tick] of [_main_loop], with the
    value read from [time_ms()] as [now]. *)
Definition tick_due (now : Q) (self : MainApp) : bool :=
  negb (Qle_bool now (_next_tick self)).

(** The first statement of [_main_loop]: the conditional logic tick. *)
Definition logic_tick (now : Q) (self : MainApp) : MainApp :=
  if tick_due now self
  then mkMainApp (_next_tick self + TICK_STEP) (update_state (_snake self))
  else self.

(** [MainApp._handle_events] over the events returned by
    [pygame.event.get()]. *)
Fixpoint _handle_events (events : list Event) (self : MainApp)
  : outcome MainApp :=
  match events with
  | [] => Returned self
  | event :: rest =>
      if handle_quit event then Quit self
      else _handle_events rest
             (mkMainApp (_next_tick self) (handle_event event (_snake self)))
  end.

(** [MainApp._main_loop]: one pass.  [_render_graphics] only reads the
    application state and is left out. *)
Definition _main_loop (now : Q) (events : list Event) (self : MainApp)
  : outcome MainApp :=
  _handle_events events (logic_tick now self).

(** [MainApp.run] over a finite supply of frames, each giving the clock
    reading and the pending events of one pass. *)
Fixpoint run (frames : list (Q * list Event)) (self : MainApp) : MainApp :=
  match frames with
  | [] => self
  | (now, events) :: rest =>
      match _main_loop now events self with
      | Returned self' => run rest self'
      | Quit self' => self'
      end
  end.

End MainApp.

Arguments mkMainApp {Snake} _ _.
Arguments _next_tick {Snake} _.
Arguments _snake {Snake} _.
Arguments tick_due {Snake} now self.
Arguments logic_tick {Snake} update_state now self.
Arguments _handle_events {Snake} handle_event events self.
Arguments _main_loop {Snake} update_state handle_event now events self.
Arguments run {Snake} update_state handle_event frames self.

End Main.

(** ** pygame.math.Vector2 over exact rationals *)
Module Math.
Local Open Scope Q_scope.

Record Vector2 : Type := mkVector2 { x : Q; y : Q }.

(** Componentwise numeric equality. *)
Definition Veq (u v : Vector2) : Prop := x u == x v /\ y u == y v.

(** [u + v]. *)
Definition add (u v : Vector2) : Vector2 :=
  mkVector2 (x u + x v) (y u + y v).

(** [k * v] for a scalar [k]. *)
Definition scale (k : Q) (v : Vector2) : Vector2 :=
  mkVector2 (k * x v) (k * y v).

(** [v.length_squared()]. *)
Definition length_squared (v : Vector2) : Q := x v * x v + y v * y v.

(** [u.lerp(v, t)]: [u * (1 - t) + v * t]; raises [ValueError] ([None])
    unless [0 <= t <= 1]. *)
Definition lerp (u v : Vector2) (t : Q) : option Vector2 :=
  if negb (Qle_bool 0 t) || negb (Qle_bool t 1) then None
  else Some (add (scale (1 - t) u) (scale t v)).

End Math.

(** ** snake/experimental/projectile.py *)
Module Projectile.
Import Pygame Math.
Local Open Scope Q_scope.

(** Modelled from the spec: [snake.experimental.terrain.Blueprint] is
    not part of the sources at hand.  The projectile reads its [rect]
    (the arena rectangle) and the turret its [block_size]. *)
Record Blueprint : Type := mkBlueprint { rect : Rect; block_size : Vector2 }.

(** Modelled from the spec: the bounds test [rect.collidepoint(px, py)]
    is inclusive on the left and top edges and exclusive on the right
    and bottom ones. *)
Definition collidepoint (r : Rect) (px py : Q) : bool :=
  Qle_bool (inject_Z (left r)) px
  && negb (Qle_bool (inject_Z (left r + width r)) px)
  && Qle_bool (inject_Z (top r)) py
  && negb (Qle_bool (inject_Z (top r + height r)) py).

Inductive ProjectileState : Type := MOVING | DELETED.

Definition ProjectileState_eqb (a b : ProjectileState) : bool :=
  match a, b with
  | MOVING, MOVING | DELETED, DELETED => true
  | _, _ => false
  end.

Record Projectile : Type := mkProjectile {
  _blueprint : Blueprint;
  _dir : Vector2;
  _curr_pos : Vector2;
  state : ProjectileState
}.

(** [Projectile.__init__]. *)
Definition init (blueprint : Blueprint) (dir pos : Vector2) : Projectile :=
  mkProjectile blueprint dir pos MOVING.

(** [Projectile._oos_collision]. *)
Definition _oos_collision (self : Projectile) : bool :=
  negb (collidepoint (rect (_blueprint self))
          (x (_curr_pos self)) (y (_curr_pos self))).

(** [Projectile.color]: yellow. *)
Definition color (self : Projectile) : Z * Z * Z := (255, 255, 0)%Z.

(** [Projectile.radius]. *)
Definition radius (self : Projectile) : Z := 5%Z.

(** [Projectile.speed = 0.05]. *)
Definition speed (self : Projectile) : Q := 5 # 100.

(** [Projectile.velocity]. *)
Definition velocity (self : Projectile) : Vector2 :=
  scale (speed self) (_dir self).

(** [Projectile.process_logic]. *)
Definition process_logic (self : Projectile) : Projectile :=
  let self1 :=
    mkProjectile (_blueprint self) (_dir self)
      (add (_curr_pos self) (velocity self)) (state self) in
  if _oos_collision self1
  then mkProjectile (_blueprint self1) (_dir self1) (_curr_pos self1) DELETED
  else self1.

(** [Projectile.get_render_position]: the value returned ([None] for the
    [ValueError] of [lerp]) and the receiver after the call. *)
Definition get_render_position (self : Projectile) (interp : Q)
  : option Vector2 * Projectile :=
  let next_pos := add (_curr_pos self) (velocity self) in
  (lerp (_curr_pos self) next_pos interp, self).

(** [n] successive calls of [process_logic]. *)
Fixpoint steps (n : nat) (self : Projectile) : Projectile :=
  match n with
  | O => self
  | S n' => steps n' (process_logic self)
  end.

(** The arena (0,0)-(600,600), with blocks of 30 by 30 pixels, and a
    projectile spawned in it at (590,300) whose velocity is (10,0). *)
Definition arena : Blueprint :=
  mkBlueprint (mkRect 0 0 600 600) (mkVector2 30 30).

Definition eastbound : Projectile :=
  init arena (mkVector2 200 0) (mkVector2 590 300).

(** A projectile sits on an edge of the arena rectangle and its
    velocity points out of the rectangle across that edge. *)
Definition leaving (self : Projectile) : Prop :=
  let r := rect (_blueprint self) in
  (x (_curr_pos self) == inject_Z (left r) /\ x (velocity self) < 0) \/
  (x (_curr_pos self) == inject_Z (left r + width r) /\
   0 < x (velocity self)) \/
  (y (_curr_pos self) == inject_Z (top r) /\ y (velocity self) < 0) \/
  (y (_curr_pos self) == inject_Z (top r + height r) /\
   0 < y (velocity self)).

End Projectile.

(** ** ProjectileManager (snake/experimental/projectile.py) *)
Module Manager.
Import Pygame Math.
Import Projectile (Blueprint, Projectile, ProjectileState,
  ProjectileState_eqb, MOVING, DELETED, state).

(** [self._projectiles] is a Python set of [Projectile] objects, hashed
    by identity: a finite map from object identities to the objects'
    current contents.  Every projectile is taken to own its vectors. *)
Record ProjectileManager : Type := mkManager {
  _blueprint : Blueprint;
  _projectiles : gmap nat Projectile
}.

(** [ProjectileManager.__init__]. *)
Definition init (blueprint : Blueprint) : ProjectileManager :=
  mkManager blueprint ∅.

(** [ProjectileManager.create_projectile]: a new object, hence a fresh
    identity, is added to the set. *)
Definition create_projectile (dir pos : Vector2) (self : ProjectileManager)
  : ProjectileManager :=
  mkManager (_blueprint self)
    (<[fresh (dom (_projectiles self)) :=
         Projectile.init (_blueprint self) dir pos]> (_projectiles self)).

(** The loop of [process_logic] carries the objects, the local set
    [to_be_removed] and, as a record of what happened, the identities
    on which [proj.process_logic()] was called, in call order. *)
Definition loop_state : Type := gmap nat Projectile * gset nat * list nat.

(** One iteration of [for proj in self._projectiles]. *)
Definition loop_body (acc : loop_state) (id : nat) : loop_state :=
  let '(projs, to_be_removed, called) := acc in
  match projs !! id with
  | Some proj =>
      let proj' := Projectile.process_logic proj in
      (<[id := proj']> projs,
       if ProjectileState_eqb (state proj') DELETED
       then to_be_removed ∪ {[id]} else to_be_removed,
       called ++ [id])
  | None => acc
  end.

(** The [for] loop, over the elements of the set in iteration order. *)
Definition loop (self : ProjectileManager) : loop_state :=
  foldl loop_body (_projectiles self, ∅, [])
    (elements (dom (_projectiles self))).

(** [ProjectileManager.process_logic]: the loop, then
    [self._projectiles -= to_be_removed]. *)
Definition process_logic (self : ProjectileManager) : ProjectileManager :=
  let '(projs, to_be_removed, _) := loop self in
  mkManager (_blueprint self)
    (filter (λ entry, entry.1 ∉ to_be_removed) projs).

(** The identities [process_logic] calls [proj.process_logic()] on. *)
Definition calls (self : ProjectileManager) : list nat := (loop self).2.

(** A manager of the arena with two projectiles: the first spawned at
    (590,300) with velocity (10,0), the second at (300,300) with
    velocity (-10,0). *)
Definition two_shots : ProjectileManager :=
  create_projectile (mkVector2 (-200) 0) (mkVector2 300 300)
    (create_projectile (mkVector2 200 0) (mkVector2 590 300)
       (init Projectile.arena)).

(** [n] logic ticks of the manager. *)
Definition ticks (n : nat) (self : ProjectileManager) : ProjectileManager :=
  Nat.iter n process_logic self.

(** One [draw.circle] call of [build_surface]. *)
Record Circle : Type := mkCircle {
  color : Z * Z * Z;
  center : Vector2;
  radius : Z
}.

(** [ProjectileManager.build_surface]: the circles drawn, one per
    projectile of the set; [None] when [get_render_position] raises. *)
Definition build_surface (self : ProjectileManager) (interp : Q)
  : option (list Circle) :=
  mapM (λ entry : nat * Projectile,
          match (Projectile.get_render_position entry.2 interp).1 with
          | Some pos =>
              Some (mkCircle (Projectile.color entry.2) pos
                      (Projectile.radius entry.2))
          | None => None
          end)
       (map_to_list (_projectiles self)).

End Manager.

(** ** Random placement (snake/elements.py) *)
Module Placement.
Import Pygame Elements.
Local Open Scope Z_scope.

(** [random.randint(a, b)]: raises [ValueError] ([None]) when the range
    is empty; otherwise returns a value of the range, every one of them
    possible.  The value is picked by [e], what the random source
    yields at this call. *)
Definition randint (a b : Z) (e : Z) : option Z :=
  if b <? a then None else Some (a + e mod (b - a + 1)).

(** [RandomPoint.__init__]: two draws, [x] first. *)
Definition RandomPoint (grid : Grid) (e1 e2 : Z) : option Point :=
  match randint 0 (fst (size grid) - 1) e1 with
  | None => None
  | Some px =>
      match randint 0 (snd (size grid) - 1) e2 with
      | None => None
      | Some py => Some (mkPoint px py)
      end
  end.

(** [GridElement.__init__]: [point or RandomPoint(grid=grid)].  A
    [Point] object is always true, so the random point is built only
    when no point is given. *)
Definition init (grid : Grid) (point : option Point) (e1 e2 : Z)
  : option GridElement :=
  match point with
  | Some pt => Some (mkGridElement grid pt)
  | None =>
      match RandomPoint grid e1 e2 with
      | Some pt => Some (mkGridElement grid pt)
      | None => None
      end
  end.

End Placement.

(** ** snake/snake.py *)
Module Snake.
Import Pygame.
Local Open Scope Z_scope.

Record Snake : Type := mkSnake { _x : Z; _y : Z; _grid_size : Z }.

(** [Snake.__init__]. *)
Definition init (grid_size : Z) : Snake := mkSnake 0 0 grid_size.

(** [Snake.pos]. *)
Definition pos (self : Snake) : Z * Z := (_x self, _y self).

(** [Snake.move_x]. *)
Definition move_x (step : Z) (self : Snake) : Snake :=
  mkSnake (_x self + step) (_y self) (_grid_size self).

(** [Snake.move_y]. *)
Definition move_y (step : Z) (self : Snake) : Snake :=
  mkSnake (_x self) (_y self + step) (_grid_size self).

(** [Snake.draw]: the rectangle handed to [pygame.draw.rect]. *)
Definition draw (self : Snake) : Rect :=
  mkRect (_x self * _grid_size self) (_y self * _grid_size self)
         (_grid_size self) (_grid_size self).

(** [Snake.handle_input]: four independent tests on the key of a
    key-down event. *)
Definition handle_input (event : Event) (self : Snake) : Snake :=
  if type event =? KEYDOWN then
    let s1 := if key event =? K_UP then move_y (-1) self else self in
    let s2 := if key event =? K_DOWN then move_y 1 s1 else s1 in
    let s3 := if key event =? K_RIGHT then move_x 1 s2 else s2 in
    let s4 := if key event =? K_LEFT then move_x (-1) s3 else s3 in
    s4
  else self.

(** The snake after a sequence of events, handled in order. *)
Definition handle_inputs (events : list Event) (self : Snake) : Snake :=
  foldl (fun s event => handle_input event s) self events.

(** How many key-down events of a sequence carry the key [k]. *)
Definition presses (k : Z) (events : list Event) : Z :=
  Z.of_nat
    (length (filter (fun event => type event = KEYDOWN /\ key event = k)
               events)).

(** The same count for a single event: 1 or 0. *)
Definition press (k : Z) (event : Event) : Z :=
  if decide (type event = KEYDOWN /\ key event = k) then 1 else 0.

End Snake.

(** ** The turret's place in the terrain (snake/experimental/turret.py) *)
Module TurretLoc.
Import Ascii.

(** [Turret.CHAR]. *)
Definition CHAR : ascii := "H"%char.

(** [row.index(c)]: the first position of [c] in the row; [None] for
    the [ValueError] raised when [c] does not occur. *)
Fixpoint index (c : ascii) (row : list ascii) : option nat :=
  match row with
  | [] => None
  | c' :: rest =>
      if Ascii.eqb c' c then Some 0%nat
      else match index c rest with
           | Some j => Some (S j)
           | None => None
           end
  end.

(** The loop of [_find_in_blueprint] from row number [i] on: the
    arguments [(x, y)] of the [Vector2] returned for the first row that
    holds [CHAR]; [None] when the loop ends without returning. *)
Fixpoint find_from (i : nat) (terrain : list (list ascii))
  : option (nat * nat) :=
  match terrain with
  | [] => None
  | row :: rest =>
      match index CHAR row with
      | Some j => Some (j, i)
      | None => find_from (S i) rest
      end
  end.

(** [Turret._find_in_blueprint], on the blueprint's [terrain], a
    sequence of rows of characters. *)
Definition _find_in_blueprint (terrain : list (list ascii))
  : option (nat * nat) :=
  find_from 0 terrain.

End TurretLoc.

(** * Properties *)

(** ** Points and grid elements *)
Module ElementsFacts.
Import Pygame Elements.
Local Open Scope Z_scope.

Lemma clone_UP (c : Point) : clone c UP = mkPoint (x c) (y c - 1).
Proof. reflexivity. Qed.

Lemma clone_DOWN (c : Point) : clone c DOWN = mkPoint (x c) (y c + 1).
Proof. reflexivity. Qed.

Lemma clone_RIGHT (c : Point) : clone c RIGHT = mkPoint (x c + 1) (y c).
Proof. reflexivity. Qed.

Lemma clone_LEFT (c : Point) : clone c LEFT = mkPoint (x c - 1) (y c).
Proof. reflexivity. Qed.

(** Repeated clones to the right add the number of clones to [x]. *)
Lemma clone_n_RIGHT (n : nat) (c : Point) :
  clone_n n c RIGHT = mkPoint (x c + Z.of_nat n) (y c).
Proof.
  revert c; induction n as [|n IH]; intros c.
  - destruct c as [cx cy]; simpl; f_equal; lia.
  - cbn [clone_n]. rewrite IH, clone_RIGHT. cbn [x y]. f_equal; lia.
Qed.

(** Allocation keeps every existing object and puts the new one at a
    reference that was free. *)
Lemma alloc_spec (q : Point) (h : store) :
  h !! (alloc q h).1 = None /\ (alloc q h).2 !! (alloc q h).1 = Some q /\
  forall i o, h !! i = Some o -> (alloc q h).2 !! i = Some o.
Proof.
  unfold alloc; cbn [fst snd]. split; [|split].
  - apply lookup_ge_None_2. lia.
  - rewrite lookup_app_r by lia. now rewrite Nat.sub_diag.
  - intros i o Hi. now apply lookup_app_l_Some.
Qed.

(** C3: [Point.clone] applies the delta table (Up: y - 1, Down: y + 1,
    Right: x + 1, Left: x - 1, the other coordinate unchanged); called
    on an object it returns a new object at a fresh reference and leaves
    the receiver, and every other object, as it was; three clones to the
    right of (5,5) give (8,5). *)
Theorem clone_delta_table (h : store) (r : nat) (c : Point) (s : State)
    (Hr : h !! r = Some c) :
  (y (clone c UP) = y c - 1 /\ x (clone c UP) = x c) /\
  (y (clone c DOWN) = y c + 1 /\ x (clone c DOWN) = x c) /\
  (x (clone c RIGHT) = x c + 1 /\ y (clone c RIGHT) = y c) /\
  (x (clone c LEFT) = x c - 1 /\ y (clone c LEFT) = y c) /\
  (exists r' h',
      clone_obj r s h = Some (r', h') /\
      r' <> r /\ h !! r' = None /\
      h' !! r' = Some (clone c s) /\
      h' !! r = Some c /\
      forall i o, h !! i = Some o -> h' !! i = Some o) /\
  clone_n 3 (mkPoint 5 5) RIGHT = mkPoint 8 5.
Proof.
  repeat split; try reflexivity.
  destruct (alloc_spec (clone c s) h) as (Hfree & Hnew & Hkeep).
  destruct (alloc (clone c s) h) as [r' h'] eqn:Ealloc.
  cbn [fst snd] in Hfree, Hnew, Hkeep.
  exists r', h'. unfold clone_obj. rewrite Hr, Ealloc.
  repeat split; auto.
  intros ->. congruence.
Qed.

Lemma clone_delta_table_witness :
  [mkPoint 5 5] !! 0%nat = Some (mkPoint 5 5) /\
  exists r' h',
    clone_obj 0 RIGHT [mkPoint 5 5] = Some (r', h') /\
    r' <> 0%nat /\
    h' !! r' = Some (mkPoint 6 5) /\
    h' !! 0%nat = Some (mkPoint 5 5).
Proof.
  split; [reflexivity|].
  destruct (clone_delta_table [mkPoint 5 5] 0 (mkPoint 5 5) RIGHT eq_refl)
    as (_ & _ & _ & _ & (r' & h' & Hc & Hne & _ & Hnew & Hold & _) & _).
  exists r', h'. repeat split; assumption.
Defined.

(** C4: [Point.collision] is true exactly when both coordinates are
    equal; it is symmetric and reflexive (and, as a function to [bool],
    total and without effect). *)
Theorem collision_iff (a b : Point) :
  (collision a b = true <-> x a = x b /\ y a = y b) /\
  collision a b = collision b a /\
  collision a a = true.
Proof.
  unfold collision. split; [|split].
  - rewrite andb_true_iff, !Z.eqb_eq. reflexivity.
  - now rewrite (Z.eqb_sym (x a)), (Z.eqb_sym (y a)).
  - now rewrite !Z.eqb_refl.
Qed.

(** C9: for a cell inside the grid, [GridElement.rect] is the rectangle
    with top-left corner (x * step, y * step) and size (step, step); it
    is the same for any two elements with the same cell and cell size,
    and [render_pos] is its top-left corner. *)
Theorem rect_of_cell (g : Grid) (c : Point)
    (Hx : 0 <= x c < fst (size g)) (Hy : 0 <= y c < snd (size g)) :
  rect (mkGridElement g c)
    = mkRect (x c * step g) (y c * step g) (step g) (step g) /\
  render_pos (mkGridElement g c) = (x c * step g, y c * step g) /\
  forall e : GridElement,
    p e = c -> step (_grid e) = step g -> rect e = rect (mkGridElement g c).
Proof.
  repeat split.
  intros [g' c'] Hp Hs. simpl in Hp, Hs. subst c'.
  unfold rect. simpl. now rewrite Hs.
Qed.

Lemma rect_of_cell_witness :
  rect (mkGridElement (mkGrid (20, 20) 30) (mkPoint 5 5))
    = mkRect 150 150 30 30.
Proof.
  assert (Hx : 0 <= x (mkPoint 5 5) < fst (size (mkGrid (20, 20) 30)))
    by (simpl; lia).
  assert (Hy : 0 <= y (mkPoint 5 5) < snd (size (mkGrid (20, 20) 30)))
    by (simpl; lia).
  exact (proj1 (rect_of_cell (mkGrid (20, 20) 30) (mkPoint 5 5) Hx Hy)).
Defined.

End ElementsFacts.

(** ** The logic tick of the main loop *)
Module MainFacts.
Import Pygame Main.
Local Open Scope Q_scope.

Section Clock.
Context {Snake : Type}.
Variable update_state : Snake -> Snake.
Variable handle_event : Event -> Snake -> Snake.

(** The guard is a strict comparison. *)
Lemma tick_due_iff (now : Q) (self : MainApp Snake) :
  tick_due now self = true <-> _next_tick self < now.
Proof.
  unfold tick_due. rewrite negb_true_iff. split.
  - intros Hb. apply Qnot_le_lt. intros Hle.
    apply Qle_bool_iff in Hle. congruence.
  - intros Hlt. destruct (Qle_bool now (_next_tick self)) eqn:E; [|reflexivity].
    apply Qle_bool_iff in E. exfalso. exact (Qlt_not_le _ _ Hlt E).
Qed.

Lemma tick_due_false_iff (now : Q) (self : MainApp Snake) :
  tick_due now self = false <-> now <= _next_tick self.
Proof.
  unfold tick_due. rewrite negb_false_iff. apply Qle_bool_iff.
Qed.

(** Handling events never touches the deadline. *)
Lemma _handle_events_next_tick (events : list Event) (self : MainApp Snake) :
  _next_tick (after (_handle_events handle_event events self))
    = _next_tick self.
Proof.
  revert self. induction events as [|event rest IH]; intros self.
  - reflexivity.
  - cbn [_handle_events]. destruct (handle_quit event).
    + reflexivity.
    + now rewrite IH.
Qed.

(** A pass either leaves the clock and the snake alone or advances the
    deadline by one step and updates the snake once. *)
Lemma logic_tick_cases (now : Q) (self : MainApp Snake) :
  (tick_due now self = false /\ logic_tick update_state now self = self) \/
  (tick_due now self = true /\
   logic_tick update_state now self
     = mkMainApp (_next_tick self + TICK_STEP) (update_state (_snake self))).
Proof.
  unfold logic_tick. destruct (tick_due now self); [right|left]; auto.
Qed.

(** C1, as the code has it: the tick is due exactly when the clock
    reading is strictly later than the deadline; with the deadline at
    [t0] it is due neither at [t0 - 1] nor at [t0], and it is due at
    [t0 + 1]. *)
Theorem tick_due_strict (now t0 : Q) (s : Snake) :
  (tick_due now (mkMainApp t0 s) = true <-> t0 < now) /\
  tick_due (t0 - 1) (mkMainApp t0 s) = false /\
  tick_due t0 (mkMainApp t0 s) = false /\
  tick_due (t0 + 1) (mkMainApp t0 s) = true.
Proof.
  split; [apply tick_due_iff|]. split; [|split].
  - apply tick_due_false_iff. cbn [_next_tick].
    rewrite <- (Qplus_0_r t0) at 2. apply Qplus_le_r. discriminate.
  - apply tick_due_false_iff. cbn [_next_tick]. apply Qle_refl.
  - apply tick_due_iff. cbn [_next_tick].
    rewrite <- (Qplus_0_r t0) at 1. apply Qplus_lt_r. reflexivity.
Qed.

(** C2: however late the pass is (the clock reading exceeds the deadline
    by [late] whole steps or more), one pass moves the deadline by
    exactly one step of 250 ms, strictly forward, and updates the snake
    exactly once before the events are handled; in general a pass fires
    no tick or one. *)
Theorem logic_tick_single_step (late : nat) (now : Q) (events : list Event)
    (self : MainApp Snake)
    (Hlate : _next_tick self + inject_Z (Z.of_nat late) * TICK_STEP < now) :
  let self' := logic_tick update_state now self in
  _next_tick self' = _next_tick self + TICK_STEP /\
  TICK_STEP == 250 /\
  _next_tick self < _next_tick self' /\
  _snake self' = update_state (_snake self) /\
  _main_loop update_state handle_event now events self
    = _handle_events handle_event events
        (mkMainApp (_next_tick self + TICK_STEP)
           (update_state (_snake self))) /\
  _next_tick (after (_main_loop update_state handle_event now events self))
    = _next_tick self + TICK_STEP /\
  forall now' : Q,
    logic_tick update_state now' self = self \/
    logic_tick update_state now' self
      = mkMainApp (_next_tick self + TICK_STEP) (update_state (_snake self)).
Proof.
  assert (Hdue : tick_due now self = true).
  { apply tick_due_iff. eapply Qle_lt_trans; [|exact Hlate].
    rewrite <- (Qplus_0_r (_next_tick self)) at 1. apply Qplus_le_r.
    apply Qmult_le_0_compat; [|discriminate].
    change 0 with (inject_Z 0). rewrite <- Zle_Qle. lia. }
  assert (Hstep : logic_tick update_state now self
                  = mkMainApp (_next_tick self + TICK_STEP)
                      (update_state (_snake self))).
  { unfold logic_tick. now rewrite Hdue. }
  cbv zeta. unfold _main_loop. rewrite Hstep. cbn [_next_tick _snake].
  repeat split.
  - rewrite <- (Qplus_0_r (_next_tick self)) at 1. apply Qplus_lt_r.
    reflexivity.
  - now rewrite _handle_events_next_tick.
  - intros now'. destruct (logic_tick_cases now' self) as [[_ H]|[_ H]]; auto.
Qed.

End Clock.

(** Four steps late at 2001 ms with the deadline at 1000 ms: one pass
    counts one tick and sets the deadline to 1250 ms. *)
Lemma logic_tick_single_step_witness :
  (1000 + inject_Z (Z.of_nat 4) * TICK_STEP < 2001) /\
  _main_loop S (fun _ n => n) 2001 [] (mkMainApp 1000 0%nat)
    = Returned (mkMainApp (1000 + TICK_STEP) 1%nat).
Proof.
  assert (H : _next_tick (mkMainApp 1000 0%nat)
              + inject_Z (Z.of_nat 4) * TICK_STEP < 2001) by reflexivity.
  split; [exact H|].
  exact (proj1 (proj2 (proj2 (proj2 (proj2
    (logic_tick_single_step S (fun _ n => n) 4 2001 [] _ H)))))).
Defined.

(** The backlog is worked off one tick per pass: three passes at the
    same late clock reading count three ticks. *)
Example run_three_late_passes :
  run S (fun _ n => n) [(2001, []); (2001, []); (2001, [])]
    (mkMainApp 1000 0%nat)
  = mkMainApp 1750 3%nat.
Proof. reflexivity. Qed.

(** C1 as stated fails at the deadline itself: with the deadline at
    1000 ms and the clock reading 1000 ms the tick is not due. *)
Lemma tick_not_due_at_deadline :
  ~ (tick_due 1000 (mkMainApp 1000 tt) = true <-> 1000 <= 1000).
Proof.
  intros [_ H]. specialize (H (Qle_refl _)). discriminate H.
Qed.

End MainFacts.

(** ** Projectiles *)
Module ProjectileFacts.
Import Pygame Math Projectile.
Local Open Scope Q_scope.

Lemma Qle_bool_false_iff (a b : Q) : Qle_bool a b = false <-> b < a.
Proof.
  split.
  - intros Hb. apply Qnot_le_lt. intros Hle.
    apply Qle_bool_iff in Hle. congruence.
  - intros Hlt. destruct (Qle_bool a b) eqn:E; [|reflexivity].
    apply Qle_bool_iff in E. exfalso. exact (Qlt_not_le _ _ Hlt E).
Qed.

(** The bounds test, as inequalities. *)
Lemma collidepoint_true_iff (r : Rect) (px py : Q) :
  collidepoint r px py = true <->
  (inject_Z (left r) <= px /\ px < inject_Z (left r + width r)) /\
  (inject_Z (top r) <= py /\ py < inject_Z (top r + height r)).
Proof.
  unfold collidepoint.
  rewrite !andb_true_iff, !negb_true_iff, !Qle_bool_iff, !Qle_bool_false_iff.
  tauto.
Qed.

Lemma collidepoint_false_iff (r : Rect) (px py : Q) :
  collidepoint r px py = false <->
  px < inject_Z (left r) \/ inject_Z (left r + width r) <= px \/
  py < inject_Z (top r) \/ inject_Z (top r + height r) <= py.
Proof.
  unfold collidepoint.
  rewrite !andb_false_iff, !negb_false_iff, !Qle_bool_iff, !Qle_bool_false_iff.
  tauto.
Qed.

(** [process_logic] always integrates the position, whatever the
    outcome of the bounds test. *)
Lemma process_logic_pos (p : Projectile) :
  _curr_pos (process_logic p) = add (_curr_pos p) (velocity p).
Proof.
  unfold process_logic. cbv zeta.
  match goal with |- context [if ?b then _ else _] => destruct b end;
    reflexivity.
Qed.

Lemma process_logic_blueprint (p : Projectile) :
  _blueprint (process_logic p) = _blueprint p.
Proof.
  unfold process_logic. cbv zeta.
  match goal with |- context [if ?b then _ else _] => destruct b end;
    reflexivity.
Qed.

Lemma process_logic_dir (p : Projectile) :
  _dir (process_logic p) = _dir p.
Proof.
  unfold process_logic. cbv zeta.
  match goal with |- context [if ?b then _ else _] => destruct b end;
    reflexivity.
Qed.

(** The state after a step is decided by the bounds test at the new
    position. *)
Lemma process_logic_state (p : Projectile) :
  state (process_logic p)
  = if _oos_collision (process_logic p) then DELETED else state p.
Proof.
  unfold process_logic. cbv zeta.
  match goal with |- context [if ?b then _ else _] => destruct b eqn:E end.
  - unfold _oos_collision in *. cbn [_blueprint _curr_pos state] in *.
    now rewrite E.
  - rewrite E. reflexivity.
Qed.

Lemma steps_S (n : nat) (p : Projectile) :
  steps (S n) p = process_logic (steps n p).
Proof.
  revert p. induction n as [|n IH]; intros p; [reflexivity|].
  change (steps (S (S n)) p) with (steps (S n) (process_logic p)).
  rewrite IH. reflexivity.
Qed.

(** A projectile whose position is inside the arena after each of its
    first [n] steps is still moving after them. *)
Lemma steps_inside_moving (n : nat) (p : Projectile) :
  state p = MOVING ->
  (forall k, (1 <= k <= n)%nat -> _oos_collision (steps k p) = false) ->
  state (steps n p) = MOVING.
Proof.
  intros Hmov. induction n as [|n IH]; intros Hin; [exact Hmov|].
  rewrite steps_S, process_logic_state, <- steps_S.
  rewrite (Hin (S n)) by lia. apply IH. intros k Hk. apply Hin. lia.
Qed.

(** Leaving across an edge puts the next position outside. *)
Lemma leaving_oos (p : Projectile) :
  leaving p -> _oos_collision (process_logic p) = true.
Proof.
  unfold leaving, _oos_collision. cbv zeta.
  rewrite process_logic_pos, process_logic_blueprint.
  intros H. apply negb_true_iff, collidepoint_false_iff.
  cbn [add x y].
  destruct H as [[He Hv]|[[He Hv]|[[He Hv]|[He Hv]]]].
  - left. Lqa.lra.
  - right; left. Lqa.lra.
  - right; right; left. Lqa.lra.
  - right; right; right. Lqa.lra.
Qed.

(** C5, as the code has it: the velocity of a step is the scalar speed
    (0.05) times the direction vector as it was supplied, with no
    normalisation; the distance moved in a step is the speed times the
    length of that vector (stated on squared lengths), and is the speed
    itself exactly when the direction has unit length. *)
Theorem velocity_scales_dir (p : Projectile) :
  speed p == 5 # 100 /\
  velocity p = scale (speed p) (_dir p) /\
  _curr_pos (process_logic p) = add (_curr_pos p) (velocity p) /\
  length_squared (velocity p)
    == speed p * speed p * length_squared (_dir p) /\
  (length_squared (velocity p) == speed p * speed p <->
   length_squared (_dir p) == 1).
Proof.
  assert (Hlen : length_squared (velocity p)
                 == speed p * speed p * length_squared (_dir p)).
  { unfold velocity, length_squared, scale. cbn [x y]. ring. }
  split; [reflexivity|]. split; [reflexivity|].
  split; [apply process_logic_pos|]. split; [exact Hlen|].
  rewrite Hlen. unfold speed.
  set (d := length_squared (_dir p)). clearbody d.
  split; intros H; Lqa.lra.
Qed.

(** C5 as stated fails for a direction of length 5: the velocity is not
    the speed times the unit vector of that direction, and the distance
    moved is not the speed. *)
Lemma velocity_not_normalized :
  let p := init arena (mkVector2 3 4) (mkVector2 0 0) in
  let unit_dir := mkVector2 (3 # 5) (4 # 5) in
  length_squared unit_dir == 1 /\
  Veq (_dir p) (scale 5 unit_dir) /\
  ~ Veq (velocity p) (scale (speed p) unit_dir) /\
  ~ length_squared (velocity p) == speed p * speed p.
Proof.
  cbv zeta. split; [reflexivity|]. split; [split; reflexivity|]. split.
  - intros [H _]. vm_compute in H. discriminate H.
  - intros H. vm_compute in H. discriminate H.
Qed.

(** C6: for a fraction [f] in [0,1], [get_render_position] returns the
    current position plus [f] times the velocity; at 0 this is the
    current position, at 1 the current position plus one velocity step;
    the projectile is the same after the call. *)
Theorem get_render_position_linear (p : Projectile) (f : Q)
    (Hf : 0 <= f <= 1) :
  (exists r, (get_render_position p f).1 = Some r /\
             Veq r (add (_curr_pos p) (scale f (velocity p)))) /\
  (exists r0, (get_render_position p 0).1 = Some r0 /\
              Veq r0 (_curr_pos p)) /\
  (exists r1, (get_render_position p 1).1 = Some r1 /\
              Veq r1 (add (_curr_pos p) (velocity p))) /\
  (get_render_position p f).2 = p.
Proof.
  destruct Hf as [Hf0 Hf1].
  unfold get_render_position. cbn [fst snd]. repeat split.
  - eexists. split.
    + unfold lerp. apply Qle_bool_iff in Hf0, Hf1. rewrite Hf0, Hf1.
      reflexivity.
    + split; unfold add, scale; cbn [x y]; ring.
  - eexists. split; [reflexivity|].
    split; unfold add, scale; cbn [x y]; ring.
  - eexists. split; [reflexivity|].
    split; unfold add, scale; cbn [x y]; ring.
Qed.

Lemma get_render_position_linear_witness :
  0 <= 1 # 2 <= 1 /\
  exists r, (get_render_position eastbound (1 # 2)).1 = Some r /\
            Veq r (mkVector2 595 300).
Proof.
  assert (Hf : 0 <= 1 # 2 <= 1) by (split; discriminate).
  split; [exact Hf|].
  destruct (get_render_position_linear eastbound (1 # 2) Hf)
    as [(r & Hr & Hv) _].
  exists r. split; [exact Hr|].
  destruct Hv as [Hx Hy]. split.
  - rewrite Hx. reflexivity.
  - rewrite Hy. reflexivity.
Defined.

(** C7: a step first adds the velocity to the position and then tests
    the new position against the arena; outside, the state is Removed
    after that same step.  A projectile on an edge that moves outward is
    Removed after one step; a moving one whose position stays inside
    over [n] steps is still moving.  In the arena (0,0)-(600,600), from
    (590,300) with velocity (10,0), the position is (600,300) after one
    step and (610,300) after two, when the projectile is Removed. *)
Theorem process_logic_bounds (p b q : Projectile) (n : nat)
    (Hout : leaving b)
    (Hmov : state q = MOVING)
    (Hin : forall k, (1 <= k <= n)%nat -> _oos_collision (steps k q) = false) :
  _curr_pos (process_logic p) = add (_curr_pos p) (velocity p) /\
  _oos_collision (process_logic p)
    = negb (collidepoint (rect (_blueprint p))
              (x (add (_curr_pos p) (velocity p)))
              (y (add (_curr_pos p) (velocity p)))) /\
  state (process_logic p)
    = (if _oos_collision (process_logic p) then DELETED else state p) /\
  state (process_logic b) = DELETED /\
  state (steps n q) = MOVING /\
  state eastbound = MOVING /\
  Veq (velocity eastbound) (mkVector2 10 0) /\
  Veq (_curr_pos (steps 1 eastbound)) (mkVector2 600 300) /\
  Veq (_curr_pos (steps 2 eastbound)) (mkVector2 610 300) /\
  state (steps 2 eastbound) = DELETED.
Proof.
  split; [apply process_logic_pos|]. split.
  { unfold _oos_collision.
    now rewrite process_logic_pos, process_logic_blueprint. }
  split; [apply process_logic_state|]. split.
  { rewrite process_logic_state. now rewrite leaving_oos. }
  split; [now apply steps_inside_moving|].
  repeat split.
Qed.

Lemma process_logic_bounds_witness :
  let b := init arena (mkVector2 (-200) 0) (mkVector2 0 300) in
  let q := init arena (mkVector2 (-200) 0) (mkVector2 590 300) in
  leaving b /\ state (process_logic b) = DELETED /\
  state (steps 3 q) = MOVING.
Proof.
  cbv zeta.
  assert (Hout : leaving (init arena (mkVector2 (-200) 0) (mkVector2 0 300))).
  { left. split; reflexivity. }
  assert (Hin : forall k, (1 <= k <= 3)%nat ->
            _oos_collision
              (steps k (init arena (mkVector2 (-200) 0) (mkVector2 590 300)))
            = false).
  { intros k Hk.
    destruct k as [|[|[|[|k]]]]; try reflexivity; exfalso; lia. }
  destruct (process_logic_bounds eastbound
              (init arena (mkVector2 (-200) 0) (mkVector2 0 300))
              (init arena (mkVector2 (-200) 0) (mkVector2 590 300))
              3 Hout eq_refl Hin)
    as (_ & _ & _ & Hb & Hq & _).
  split; [exact Hout|]. split; [exact Hb|exact Hq].
Defined.

End ProjectileFacts.

(** ** The projectile manager *)
Module ManagerFacts.
Import Math Manager.
Import Projectile (Projectile, ProjectileState_eqb, MOVING, DELETED, state).

Lemma state_eqb_DELETED (s : Projectile.ProjectileState) :
  ProjectileState_eqb s DELETED = true <-> s = DELETED.
Proof. destruct s; simpl; split; congruence. Qed.

Lemma state_not_DELETED (s : Projectile.ProjectileState) :
  s <> DELETED <-> s = MOVING.
Proof. destruct s; split; congruence. Qed.

(** One iteration on an object of the set. *)
Lemma loop_body_Some (projs : gmap nat Projectile) (rm : gset nat)
    (called : list nat) (id : nat) (proj : Projectile) :
  projs !! id = Some proj ->
  loop_body (projs, rm, called) id
  = (<[id := Projectile.process_logic proj]> projs,
     if ProjectileState_eqb (state (Projectile.process_logic proj)) DELETED
     then rm ∪ {[id]} else rm,
     called ++ [id]).
Proof. intros Hid. unfold loop_body. now rewrite Hid. Qed.

(** The loop over distinct identities of objects of the set: it calls
    [process_logic] on them in order, replaces each by its stepped
    version, keeps every other object, and collects in [to_be_removed]
    the identities whose object is [DELETED] after its step. *)
Lemma foldl_loop_body (l : list nat) :
  NoDup l ->
  forall (m0 : gmap nat Projectile) (rm0 : gset nat) (c0 : list nat),
  (forall id, id ∈ l -> is_Some (m0 !! id)) ->
  (foldl loop_body (m0, rm0, c0) l).2 = c0 ++ l /\
  (forall id,
      (foldl loop_body (m0, rm0, c0) l).1.1 !! id
      = if decide (id ∈ l) then Projectile.process_logic <$> m0 !! id
        else m0 !! id) /\
  (forall id,
      id ∈ (foldl loop_body (m0, rm0, c0) l).1.2 <->
      id ∈ rm0 \/
      (id ∈ l /\ exists p, m0 !! id = Some p /\
                           state (Projectile.process_logic p) = DELETED)).
Proof.
  induction 1 as [|a l Ha Hnd IH]; intros m0 rm0 c0 Hdom.
  - cbn [foldl fst snd]. split; [now rewrite app_nil_r|]. split.
    + intros id. rewrite decide_False; [reflexivity|]. apply not_elem_of_nil.
    + intros id. split; [auto|]. intros [H|[H _]]; [exact H|].
      now apply not_elem_of_nil in H.
  - destruct (Hdom a) as [p Hp]; [apply elem_of_cons; auto|].
    cbn [foldl]. rewrite (loop_body_Some _ _ _ _ _ Hp).
    set (p' := Projectile.process_logic p).
    set (rm1 := if ProjectileState_eqb (state p') DELETED
                then rm0 ∪ {[a]} else rm0).
    destruct (IH (<[a := p']> m0) rm1 (c0 ++ [a])) as (Hc & Hm & Hr).
    { intros id Hid. apply lookup_insert_is_Some.
      destruct (decide (a = id)); [now left|right; split; auto].
      apply Hdom, elem_of_cons; auto. }
    split; [rewrite Hc, <- app_assoc; reflexivity|]. split.
    + intros id. rewrite Hm.
      destruct (decide (id = a)) as [->|Hne].
      * rewrite (decide_False (P := a ∈ l)) by exact Ha.
        rewrite (decide_True (P := a ∈ a :: l)) by (apply elem_of_cons; auto).
        rewrite lookup_insert_eq, Hp. reflexivity.
      * rewrite lookup_insert_ne by congruence.
        destruct (decide (id ∈ l)) as [Hin|Hnin].
        -- rewrite decide_True by (apply elem_of_cons; auto). reflexivity.
        -- rewrite decide_False; [reflexivity|].
           rewrite elem_of_cons. intros [?|?]; auto.
    + intros id. rewrite Hr. clear Hc Hm Hr.
      assert (Hrm1 : id ∈ rm1 <->
                id ∈ rm0 \/ (id = a /\ state p' = DELETED)).
      { unfold rm1.
        destruct (ProjectileState_eqb (state p') DELETED) eqn:E.
        - apply state_eqb_DELETED in E.
          rewrite elem_of_union, elem_of_singleton. tauto.
        - assert (state p' <> DELETED)
            by (intros H; apply state_eqb_DELETED in H; congruence).
          tauto. }
      rewrite Hrm1, elem_of_cons. split.
      * intros [[H|[-> H]]|[Hin (q & Hq & Hs)]].
        -- now left.
        -- right. split; [now left|]. exists p. auto.
        -- right. split; [now right|]. exists q. split; [|exact Hs].
           rewrite lookup_insert_ne in Hq; [exact Hq|].
           intros ->. contradiction.
      * intros [H|[[->|Hin] (q & Hq & Hs)]].
        -- left. now left.
        -- left. right. split; [reflexivity|].
           rewrite Hp in Hq. injection Hq as <-. exact Hs.
        -- right. split; [exact Hin|]. exists q. split; [|exact Hs].
           rewrite lookup_insert_ne; [exact Hq|].
           intros ->. contradiction.
Qed.

(** The loop of a manager, in terms of its set before the call. *)
Lemma loop_spec (self : ProjectileManager) :
  (loop self).2 = elements (dom (_projectiles self)) /\
  (forall id,
      (loop self).1.1 !! id
      = Projectile.process_logic <$> _projectiles self !! id) /\
  (forall id,
      id ∈ (loop self).1.2 <->
      exists p, _projectiles self !! id = Some p /\
                state (Projectile.process_logic p) = DELETED).
Proof.
  unfold loop.
  destruct (foldl_loop_body (elements (dom (_projectiles self)))
              (NoDup_elements _) (_projectiles self) ∅ [])
    as (Hc & Hm & Hr).
  { intros id Hid. now apply elem_of_dom, elem_of_elements. }
  split; [exact Hc|]. split.
  - intros id. rewrite Hm.
    destruct (decide (id ∈ elements (dom (_projectiles self)))) as [|Hn];
      [reflexivity|].
    rewrite elem_of_elements, elem_of_dom in Hn.
    destruct (_projectiles self !! id) eqn:E; [|reflexivity].
    exfalso. apply Hn. eauto.
  - intros id. rewrite Hr. split.
    + intros [H|[_ H]]; [|exact H]. now apply not_elem_of_empty in H.
    + intros (p & Hp & Hs). right. split; [|eauto].
      apply elem_of_elements, elem_of_dom. eauto.
Qed.

(** C8: one call of the manager's [process_logic] calls
    [proj.process_logic()] once on each projectile of the set and on
    nothing else; when the loop ends every projectile is still in the
    set, replaced by its stepped version; after the call the set holds
    exactly the stepped projectiles that are still [MOVING], those
    [DELETED] by their step having been taken out after the loop. *)
Theorem process_logic_steps_once_then_purges (self : ProjectileManager) :
  NoDup (calls self) /\
  (forall id, id ∈ calls self <-> is_Some (_projectiles self !! id)) /\
  (forall id,
      (loop self).1.1 !! id
      = Projectile.process_logic <$> _projectiles self !! id) /\
  (forall id p',
      _projectiles (process_logic self) !! id = Some p' <->
      exists p, _projectiles self !! id = Some p /\
                p' = Projectile.process_logic p /\
                state p' = MOVING) /\
  _blueprint (process_logic self) = _blueprint self.
Proof.
  destruct (loop_spec self) as (Hc & Hm & Hr).
  unfold calls, process_logic.
  destruct (loop self) as [[projs rm] called]. cbn [fst snd] in *.
  subst called. split; [apply NoDup_elements|]. split.
  { intros id. now rewrite elem_of_elements, elem_of_dom. }
  split; [exact Hm|]. split; [|reflexivity].
  intros id p'. cbn [_projectiles].
  rewrite map_lookup_filter_Some. cbn [fst]. rewrite Hm, fmap_Some, Hr.
  split.
  - intros [(p & Hp & ->) Hkeep]. exists p. split; [exact Hp|].
    split; [reflexivity|]. apply state_not_DELETED. intros Hs.
    apply Hkeep. eauto.
  - intros (p & Hp & -> & Hs). split; [eauto|].
    intros (q & Hq & Hd). rewrite Hp in Hq. injection Hq as <-.
    congruence.
Qed.

(** Of two projectiles, the one that steps onto the right edge of the
    arena is purged and the other is kept, one step further. *)
Lemma process_logic_steps_once_then_purges_witness :
  NoDup (calls two_shots) /\
  _projectiles (process_logic two_shots) !! 0%nat = None /\
  (exists p', _projectiles (process_logic two_shots) !! 1%nat = Some p' /\
              state p' = MOVING).
Proof.
  destruct (process_logic_steps_once_then_purges two_shots)
    as (Hnd & _ & _ & Hset & _).
  assert (H0 : _projectiles two_shots !! 0%nat = Some Projectile.eastbound)
    by (vm_compute; reflexivity).
  split; [exact Hnd|]. split.
  - destruct (_projectiles (process_logic two_shots) !! 0%nat) as [p'|] eqn:E;
      [|reflexivity].
    apply Hset in E. destruct E as (p & Hp & Hstep & Hs).
    rewrite H0 in Hp. injection Hp as <-. subst p'.
    vm_compute in Hs. discriminate Hs.
  - eexists. split.
    + apply Hset. eexists. split; [vm_compute; reflexivity|].
      split; reflexivity.
    + reflexivity.
Defined.

(** For a fraction in [0,1], [build_surface] draws one circle for each
    projectile of the set. *)
Lemma build_surface_draws_all (self : ProjectileManager) (interp : Q) :
  (0 <= interp <= 1)%Q ->
  exists circles,
    build_surface self interp = Some circles /\
    length circles = size (_projectiles self).
Proof.
  intros [H0 H1]. unfold build_surface.
  match goal with |- context [mapM ?f ?l] =>
    destruct (mapM_is_Some_2 f l) as [circles Hc]
  end.
  - apply Forall_forall. intros entry _. unfold compose.
    unfold Projectile.get_render_position, lerp. cbn [fst].
    apply Qle_bool_iff in H0, H1. rewrite H0, H1. cbn. eauto.
  - exists circles. split; [exact Hc|].
    apply mapM_Some, Forall2_length in Hc.
    now rewrite <- Hc, length_map_to_list.
Qed.

End ManagerFacts.

(** ** Further properties of points and grid elements *)
Module ElementsLaws.
Import Pygame Elements Placement.
Local Open Scope Z_scope.

Lemma Point_eq (a b : Point) : x a = x b -> y a = y b -> a = b.
Proof. destruct a, b; simpl; intros -> ->; reflexivity. Qed.

Lemma collision_true (a b : Point) : collision a b = true <-> a = b.
Proof.
  unfold collision. rewrite andb_true_iff, !Z.eqb_eq. split.
  - intros [Hx Hy]. now apply Point_eq.
  - intros ->. auto.
Qed.

(** X1: a clone in one direction followed by a clone in the opposite
    direction gives back the coordinates of the starting point. *)
Theorem clone_opposite (c : Point) :
  clone (clone c UP) DOWN = c /\ clone (clone c DOWN) UP = c /\
  clone (clone c RIGHT) LEFT = c /\ clone (clone c LEFT) RIGHT = c.
Proof.
  destruct c as [cx cy]. unfold clone; simpl.
  repeat split; f_equal; lia.
Qed.

(** X2: clones commute: two successive clones reach the same cell in
    either order of their states. *)
Theorem clone_commute (c : Point) (s1 s2 : State) :
  clone (clone c s1) s2 = clone (clone c s2) s1.
Proof.
  destruct c as [cx cy], s1, s2; unfold clone; simpl; f_equal; lia.
Qed.


(** [n] successive clones with one state move the point [n] cells
    in that direction and leave the other coordinate alone. *)
Lemma clone_n_displacement (n : nat) (c : Point) :
  clone_n n c UP = mkPoint (x c) (y c - Z.of_nat n) /\
  clone_n n c DOWN = mkPoint (x c) (y c + Z.of_nat n) /\
  clone_n n c RIGHT = mkPoint (x c + Z.of_nat n) (y c) /\
  clone_n n c LEFT = mkPoint (x c - Z.of_nat n) (y c).
Proof.
  revert c. induction n as [|n IH]; intros c.
  - destruct c as [cx cy]. simpl. repeat split; f_equal; lia.
  - cbn [clone_n].
    destruct (IH (clone c UP)) as (-> & _).
    destruct (IH (clone c DOWN)) as (_ & -> & _).
    destruct (IH (clone c RIGHT)) as (_ & _ & -> & _).
    destruct (IH (clone c LEFT)) as (_ & _ & _ & ->).
    destruct c as [cx cy]. unfold clone; simpl.
    repeat split; f_equal; lia.
Qed.

Lemma randint_Some (a b e : Z) :
  a <= b -> exists v, randint a b e = Some v /\ a <= v <= b.
Proof.
  intros Hab. unfold randint.
  destruct (Z.ltb_spec b a) as [Hlt|_]; [lia|].
  eexists. split; [reflexivity|].
  pose proof (Z.mod_pos_bound e (b - a + 1)). lia.
Qed.

Lemma randint_None (a b e : Z) : randint a b e = None <-> b < a.
Proof.
  unfold randint. destruct (Z.ltb_spec b a); split; intros; try lia;
    congruence.
Qed.

(** X4: on a grid with at least one column and one row, [RandomPoint]
    gives a cell of the grid, whatever the random source yields. *)
Theorem RandomPoint_in_grid (grid : Grid) (e1 e2 : Z)
    (Hcols : 1 <= fst (size grid)) (Hrows : 1 <= snd (size grid)) :
  exists pt, RandomPoint grid e1 e2 = Some pt /\
             0 <= x pt < fst (size grid) /\ 0 <= y pt < snd (size grid).
Proof.
  unfold RandomPoint.
  destruct (randint_Some 0 (fst (size grid) - 1) e1) as (px & -> & Hpx);
    [lia|].
  destruct (randint_Some 0 (snd (size grid) - 1) e2) as (py & -> & Hpy);
    [lia|].
  exists (mkPoint px py). simpl. repeat split; lia.
Qed.

Lemma RandomPoint_in_grid_witness :
  exists pt, RandomPoint (mkGrid (20, 20) 30) 47 (-3) = Some pt /\
             0 <= x pt < 20 /\ 0 <= y pt < 20.
Proof.
  apply (RandomPoint_in_grid (mkGrid (20, 20) 30) 47 (-3)); simpl; lia.
Defined.

(** X5: [RandomPoint] fails (the [ValueError] of [randint]) exactly on a
    grid without columns or without rows. *)
Theorem RandomPoint_error (grid : Grid) (e1 e2 : Z) :
  RandomPoint grid e1 e2 = None <->
  fst (size grid) <= 0 \/ snd (size grid) <= 0.
Proof.
  unfold RandomPoint.
  destruct (randint 0 (fst (size grid) - 1) e1) as [px|] eqn:E1.
  - destruct (randint 0 (snd (size grid) - 1) e2) as [py|] eqn:E2.
    + split; [discriminate|]. intros [H|H].
      * assert (Hn : randint 0 (fst (size grid) - 1) e1 = None)
          by (apply randint_None; lia). congruence.
      * assert (Hn : randint 0 (snd (size grid) - 1) e2 = None)
          by (apply randint_None; lia). congruence.
    + apply randint_None in E2. split; [intros _; right; lia|reflexivity].
  - apply randint_None in E1. split; [intros _; left; lia|reflexivity].
Qed.

(** X6: with a non-negative cell size, the rectangle of a cell of the
    grid lies inside the screen of [columns * step] by [rows * step]
    pixels. *)
Theorem rect_inside_screen (g : Grid) (c : Point)
    (Hstep : 0 <= step g)
    (Hx : 0 <= x c < fst (size g)) (Hy : 0 <= y c < snd (size g)) :
  0 <= left (rect (mkGridElement g c)) /\
  left (rect (mkGridElement g c)) + width (rect (mkGridElement g c))
    <= fst (size g) * step g /\
  0 <= top (rect (mkGridElement g c)) /\
  top (rect (mkGridElement g c)) + height (rect (mkGridElement g c))
    <= snd (size g) * step g.
Proof.
  unfold rect. cbn [left top width height _grid p]. nia.
Qed.

Lemma rect_inside_screen_witness :
  left (rect (mkGridElement (mkGrid (20, 20) 30) (mkPoint 19 0)))
  + width (rect (mkGridElement (mkGrid (20, 20) 30) (mkPoint 19 0)))
  <= 20 * 30.
Proof.
  destruct (rect_inside_screen (mkGrid (20, 20) 30) (mkPoint 19 0))
    as (_ & H & _); simpl; try lia.
Defined.

(** X7: with a positive cell size, two elements of one grid have
    overlapping rectangles exactly when their points collide, and then
    the rectangles are equal. *)
Theorem rect_overlap_iff_collision (g : Grid) (a b : Point)
    (Hstep : 0 < step g) :
  let ra := rect (mkGridElement g a) in
  let rb := rect (mkGridElement g b) in
  ((left ra < left rb + width rb /\ left rb < left ra + width ra /\
    top ra < top rb + height rb /\ top rb < top ra + height ra)
   <-> collision a b = true) /\
  (collision a b = true -> ra = rb).
Proof.
  cbv zeta. split.
  - rewrite collision_true. unfold rect.
    cbn [left top width height _grid p]. split.
    + intros (H1 & H2 & H3 & H4). apply Point_eq; nia.
    + intros ->. lia.
  - rewrite collision_true. now intros ->.
Qed.

Lemma rect_overlap_iff_collision_witness :
  rect (mkGridElement (mkGrid (20, 20) 30) (mkPoint 3 4))
  = rect (mkGridElement (mkGrid (20, 20) 30) (mkPoint 3 4)).
Proof.
  apply (rect_overlap_iff_collision (mkGrid (20, 20) 30)); [simpl; lia|].
  reflexivity.
Defined.

End ElementsLaws.

(** ** The snake of snake/snake.py *)
Module SnakeFacts.
Import Pygame Snake.
Local Open Scope Z_scope.

Lemma presses_nil (k : Z) : presses k [] = 0.
Proof. reflexivity. Qed.

Lemma presses_cons (k : Z) (event : Event) (events : list Event) :
  presses k (event :: events) = press k event + presses k events.
Proof.
  unfold presses, press. rewrite filter_cons.
  destruct (decide (type event = KEYDOWN /\ key event = k)); cbn [length]; lia.
Qed.

(** One event moves the snake by the presses it carries. *)
Lemma handle_input_pos (event : Event) (s : Snake) :
  handle_input event s
  = mkSnake (_x s + press K_RIGHT event - press K_LEFT event)
            (_y s + press K_DOWN event - press K_UP event)
            (_grid_size s).
Proof.
  unfold handle_input, press.
  destruct s as [sx sy gs]. cbn [_x _y _grid_size].
  destruct (Z.eqb_spec (type event) KEYDOWN) as [Ht|Ht].
  - destruct (Z.eqb_spec (key event) K_UP) as [Hu|Hu];
    destruct (Z.eqb_spec (key event) K_DOWN) as [Hd|Hd];
    destruct (Z.eqb_spec (key event) K_RIGHT) as [Hr|Hr];
    destruct (Z.eqb_spec (key event) K_LEFT) as [Hl|Hl];
    try (exfalso; unfold K_UP, K_DOWN, K_RIGHT, K_LEFT in *; lia);
    repeat match goal with
      | |- context [decide ?P] => destruct (decide P) as [[? ?]|?]
      end;
    try (exfalso; tauto);
    try (exfalso; unfold K_UP, K_DOWN, K_RIGHT, K_LEFT in *; lia);
    unfold move_x, move_y; cbn [_x _y _grid_size]; f_equal; lia.
  - repeat match goal with
      | |- context [decide ?P] => destruct (decide P) as [[? ?]|?]
      end; try (exfalso; tauto).
    f_equal; lia.
Qed.

Lemma presses_Permutation (k : Z) (events events' : list Event) :
  events ≡ₚ events' -> presses k events = presses k events'.
Proof.
  intros Hp. unfold presses. f_equal.
  apply Permutation_length. now apply filter_Permutation.
Qed.

(** X8: after any sequence of events the snake stands at its starting
    cell moved right by the number of right key-downs minus the number
    of left ones, and down by the number of down key-downs minus the
    number of up ones; key-ups, other keys and other events do not
    move it, there is no clamping at the grid edges, and the cell size
    is never changed.  So the order of the events does not matter: the
    same events in any order leave the snake at the same cell. *)
Theorem handle_inputs_position (events : list Event) (s : Snake) :
  handle_inputs events s
  = mkSnake (_x s + presses K_RIGHT events - presses K_LEFT events)
            (_y s + presses K_DOWN events - presses K_UP events)
            (_grid_size s) /\
  forall events' : list Event,
    events ≡ₚ events' -> handle_inputs events' s = handle_inputs events s.
Proof.
  assert (Hpos : forall (l : list Event) (s0 : Snake),
             handle_inputs l s0
             = mkSnake (_x s0 + presses K_RIGHT l - presses K_LEFT l)
                       (_y s0 + presses K_DOWN l - presses K_UP l)
                       (_grid_size s0)).
  { unfold handle_inputs. induction l as [|event rest IH]; intros s0.
    - cbn [foldl]. rewrite !presses_nil. destruct s0; cbn. f_equal; lia.
    - cbn [foldl]. rewrite IH, handle_input_pos, !presses_cons.
      cbn [_x _y _grid_size]. f_equal; lia. }
  split; [apply Hpos|].
  intros events' Hperm. rewrite !Hpos.
  now rewrite !(presses_Permutation _ _ _ Hperm).
Qed.

Lemma handle_inputs_position_witness :
  handle_inputs [mkEvent KEYDOWN K_RIGHT; mkEvent KEYDOWN K_UP] (init 30)
  = handle_inputs [mkEvent KEYDOWN K_UP; mkEvent KEYDOWN K_RIGHT] (init 30).
Proof.
  apply (handle_inputs_position
           [mkEvent KEYDOWN K_UP; mkEvent KEYDOWN K_RIGHT] (init 30)).
  apply perm_swap.
Defined.

(** Each arrow key-down moves the rectangle drawn for the snake by
    exactly one cell size along its axis, and every other event leaves
    the rectangle where it is. *)
Lemma draw_after_input (event : Event) (s : Snake) :
  draw (handle_input event s)
  = mkRect
      (left (draw s)
       + (press K_RIGHT event - press K_LEFT event) * _grid_size s)
      (top (draw s)
       + (press K_DOWN event - press K_UP event) * _grid_size s)
      (_grid_size s) (_grid_size s).
Proof.
  rewrite handle_input_pos. unfold draw. cbn [_x _y _grid_size left top].
  f_equal; lia.
Qed.

End SnakeFacts.

(** ** Event handling and runs of the main loop *)
Module MainRuns.
Import Pygame Main.
Local Open Scope Q_scope.

Section Runs.
Context {Snake : Type}.
Variable update_state : Snake -> Snake.
Variable handle_event : Event -> Snake -> Snake.

Let snake_after (events : list Event) (s : Snake) : Snake :=
  foldl (fun s' event => handle_event event s') s events.

(** Events before the first quitting one all reach the snake. *)
Lemma _handle_events_app (before rest : list Event) (self : MainApp Snake) :
  Forall (fun event => handle_quit event = false) before ->
  _handle_events handle_event (before ++ rest) self
  = _handle_events handle_event rest
      (mkMainApp (_next_tick self) (snake_after before (_snake self))).
Proof.
  intros Hno. revert self.
  induction Hno as [|event before Hev _ IH]; intros self.
  - destruct self; reflexivity.
  - cbn [app _handle_events]. rewrite Hev, IH. reflexivity.
Qed.

(** A pass without a quitting event: the tick, then every event. *)
Lemma _main_loop_no_quit (now : Q) (events : list Event)
    (self : MainApp Snake) :
  Forall (fun event => handle_quit event = false) events ->
  _main_loop update_state handle_event now events self
  = Returned
      (mkMainApp (_next_tick (logic_tick update_state now self))
         (snake_after events (_snake (logic_tick update_state now self)))).
Proof.
  intros Hno. unfold _main_loop.
  rewrite <- (app_nil_r events) at 1.
  now rewrite _handle_events_app.
Qed.

(** X9: when no pending event asks to quit, [_handle_events] returns
    normally after handing every event, in order, to the snake; the
    deadline is not touched. *)
Theorem _handle_events_all (events : list Event) (self : MainApp Snake)
    (Hno : Forall (fun event => handle_quit event = false) events) :
  _handle_events handle_event events self
  = Returned (mkMainApp (_next_tick self)
                (snake_after events (_snake self))).
Proof.
  rewrite <- (app_nil_r events) at 1.
  now rewrite _handle_events_app.
Qed.

(** X10: at the first event that asks to quit, [_handle_events] raises
    [QuitApplication]: the snake has handled the events before it, and
    neither the quitting event nor any later one reaches the snake. *)
Theorem _handle_events_quit (before rest : list Event) (q : Event)
    (self : MainApp Snake)
    (Hno : Forall (fun event => handle_quit event = false) before)
    (Hq : handle_quit q = true) :
  _handle_events handle_event (before ++ q :: rest) self
  = Quit (mkMainApp (_next_tick self) (snake_after before (_snake self))).
Proof.
  rewrite _handle_events_app by exact Hno.
  cbn [_handle_events]. now rewrite Hq.
Qed.

(** The deadline after a pass is the one left by the logic tick. *)
Lemma _main_loop_next_tick (now : Q) (events : list Event)
    (self : MainApp Snake) :
  _next_tick (after (_main_loop update_state handle_event now events self))
  = _next_tick (logic_tick update_state now self).
Proof. unfold _main_loop. apply MainFacts._handle_events_next_tick. Qed.

(** X11: over any run the deadline only moves forward, by a whole
    number of steps that is at most the number of passes. *)
Theorem run_deadline (frames : list (Q * list Event)) (self : MainApp Snake) :
  exists k : nat,
    (k <= length frames)%nat /\
    _next_tick (run update_state handle_event frames self)
      == _next_tick self + inject_Z (Z.of_nat k) * TICK_STEP /\
    _next_tick self
      <= _next_tick (run update_state handle_event frames self).
Proof.
  revert self. induction frames as [|[now events] rest IH]; intros self.
  - exists 0%nat. cbn [run length]. repeat split; [lia| |apply Qle_refl].
    change (inject_Z (Z.of_nat 0)) with 0. Lqa.lra.
  - cbn [run length].
    pose proof (_main_loop_next_tick now events self) as Hnext.
    assert (Hstep : exists j : nat,
               (j <= 1)%nat /\
               _next_tick (logic_tick update_state now self)
               == _next_tick self + inject_Z (Z.of_nat j) * TICK_STEP).
    { destruct (MainFacts.logic_tick_cases update_state now self)
        as [[_ ->]|[_ ->]].
      - exists 0%nat. split; [lia|].
        change (inject_Z (Z.of_nat 0)) with 0. Lqa.lra.
      - exists 1%nat. split; [lia|]. cbn [_next_tick].
        change (inject_Z (Z.of_nat 1)) with 1. Lqa.lra. }
    destruct Hstep as (j & Hj & Hjq). rewrite <- Hnext in Hjq.
    assert (Hpos : 0 <= inject_Z (Z.of_nat j) * TICK_STEP).
    { apply Qmult_le_0_compat; [|discriminate].
      change 0 with (inject_Z 0). rewrite <- Zle_Qle. lia. }
    destruct (_main_loop update_state handle_event now events self)
      as [self'|self']; cbn [after] in Hjq.
    + destruct (IH self') as (k & Hk & Hkq & Hle).
      exists (j + k)%nat. split; [lia|].
      rewrite Nat2Z.inj_add, inject_Z_plus. split; Lqa.lra.
    + exists j. split; [lia|]. split; Lqa.lra.
Qed.

(** X12: a run ends at the first pass whose events ask to quit: the
    passes after it are not made, while that pass still fires its logic
    tick before raising. *)
Theorem run_stops_at_quit (frames1 frames2 : list (Q * list Event))
    (now : Q) (events : list Event) (self : MainApp Snake)
    (Hno : Forall (fun frame =>
                     Forall (fun event => handle_quit event = false)
                       (snd frame))
             frames1)
    (Hq : Exists (fun event => handle_quit event = true) events) :
  run update_state handle_event (frames1 ++ (now, events) :: frames2) self
  = after (_main_loop update_state handle_event now events
             (run update_state handle_event frames1 self)) /\
  exists self',
    _main_loop update_state handle_event now events
      (run update_state handle_event frames1 self) = Quit self' /\
    _next_tick self'
    = _next_tick (logic_tick update_state now
                    (run update_state handle_event frames1 self)).
Proof.
  assert (Hquit : forall app : MainApp Snake,
             exists self', _main_loop update_state handle_event now events app
                           = Quit self').
  { intros app. unfold _main_loop.
    generalize (logic_tick update_state now app). clear -Hq.
    induction Hq as [event rest Hev|event rest _ IH]; intros app'.
    - cbn [_handle_events]. rewrite Hev. eauto.
    - cbn [_handle_events]. destruct (handle_quit event); eauto. }
  revert self. induction Hno as [|[now1 events1] frames1 Hev _ IH];
    intros self.
  - cbn [app run]. destruct (Hquit self) as (self' & Hs).
    pose proof (_main_loop_next_tick now events self) as Hn.
    rewrite Hs in *. cbn [after] in *. split; [reflexivity|eauto].
  - cbn [snd] in Hev.
    assert (Hm : _main_loop update_state handle_event now1 events1 self
                 = Returned
                     (mkMainApp
                        (_next_tick (logic_tick update_state now1 self))
                        (snake_after events1
                           (_snake (logic_tick update_state now1 self))))).
    { now apply _main_loop_no_quit. }
    change ((now1, events1) :: frames1) with ([(now1, events1)] ++ frames1).
    rewrite <- app_assoc. cbn [app run]. rewrite Hm. apply IH.
Qed.

(** X13: with the clock reading standing at [now] and the deadline [n]
    steps or more behind it, [n] passes without events fire [n] ticks,
    one per pass: the snake is updated [n] times and the deadline has
    moved by [n] steps. *)
Theorem run_catches_up (n : nat) (now : Q) (self : MainApp Snake)
    (Hlate : _next_tick self + inject_Z (Z.of_nat n) * TICK_STEP <= now) :
  _snake (run update_state handle_event (replicate n (now, [])) self)
  = Nat.iter n update_state (_snake self) /\
  _next_tick (run update_state handle_event (replicate n (now, [])) self)
  == _next_tick self + inject_Z (Z.of_nat n) * TICK_STEP.
Proof.
  revert self Hlate. induction n as [|n IH]; intros self Hlate.
  - cbn [replicate run Nat.iter]. split; [reflexivity|].
    change (inject_Z (Z.of_nat 0)) with 0. Lqa.lra.
  - rewrite Nat2Z.inj_succ in *. unfold Z.succ in *.
    rewrite inject_Z_plus in *. change (inject_Z 1) with 1 in *.
    assert (Hpos : 0 <= inject_Z (Z.of_nat n) * TICK_STEP).
    { apply Qmult_le_0_compat; [|discriminate].
      change 0 with (inject_Z 0). rewrite <- Zle_Qle. lia. }
    assert (Hstep : TICK_STEP == 250) by reflexivity.
    assert (Hdue : tick_due now self = true).
    { apply MainFacts.tick_due_iff. Lqa.lra. }
    cbn [replicate run]. unfold _main_loop, logic_tick. rewrite Hdue.
    cbn [_handle_events].
    destruct (IH (mkMainApp (_next_tick self + TICK_STEP)
                    (update_state (_snake self)))) as [Hs Hn].
    { cbn [_next_tick]. Lqa.lra. }
    rewrite Hs, Hn. cbn [_snake _next_tick]. split; [|Lqa.lra].
    symmetry. apply Nat.iter_succ_r.
Qed.

(** X14: passes made while the clock reading has not passed the
    deadline fire no tick: the deadline stays, and the snake only
    handles the events. *)
Theorem run_before_deadline (frames : list (Q * list Event))
    (self : MainApp Snake)
    (Hearly : Forall (fun frame => fst frame <= _next_tick self) frames)
    (Hno : Forall (fun frame =>
                     Forall (fun event => handle_quit event = false)
                       (snd frame))
             frames) :
  run update_state handle_event frames self
  = mkMainApp (_next_tick self)
      (snake_after (concat (map snd frames)) (_snake self)).
Proof.
  revert self Hearly Hno.
  induction frames as [|[now events] rest IH]; intros self Hearly Hno.
  - destruct self; reflexivity.
  - inversion Hearly as [|? ? Hnow Hearly']; subst.
    inversion Hno as [|? ? Hev Hno']; subst. cbn [fst snd] in *.
    cbn [run map concat].
    assert (Hdue : tick_due now self = false)
      by (now apply MainFacts.tick_due_false_iff).
    rewrite (_main_loop_no_quit _ _ _ Hev).
    unfold logic_tick. rewrite Hdue.
    rewrite IH by assumption. cbn [_next_tick _snake].
    unfold snake_after. now rewrite foldl_app.
Qed.

End Runs.

Lemma _handle_events_all_witness :
  _handle_events (fun event log => log ++ [key event])
    [mkEvent KEYDOWN K_UP; mkEvent KEYUP K_UP] (mkMainApp 1000 [])
  = Returned (mkMainApp 1000 [K_UP; K_UP]).
Proof.
  apply (_handle_events_all (fun event log => log ++ [key event])).
  repeat constructor.
Defined.

Lemma _handle_events_quit_witness :
  _handle_events (fun event log => log ++ [key event])
    ([mkEvent KEYDOWN K_UP] ++ mkEvent KEYUP K_q :: [mkEvent KEYDOWN K_LEFT])
    (mkMainApp 1000 [])
  = Quit (mkMainApp 1000 [K_UP]).
Proof.
  apply (_handle_events_quit (fun event log => log ++ [key event])).
  - repeat constructor.
  - reflexivity.
Defined.

Lemma run_stops_at_quit_witness :
  run S (fun _ n => n)
    ([(2001, [])] ++ (2001, [mkEvent QUIT 0]) :: [(2001, []); (2001, [])])
    (mkMainApp 1000 0%nat)
  = after (_main_loop S (fun _ n => n) 2001 [mkEvent QUIT 0]
             (run S (fun _ n => n) [(2001, [])] (mkMainApp 1000 0%nat))).
Proof.
  apply (run_stops_at_quit S (fun _ n => n)).
  - repeat constructor.
  - constructor. reflexivity.
Defined.

Lemma run_catches_up_witness :
  _snake (run S (fun _ n => n) (replicate 4 (2000, [])) (mkMainApp 1000 0%nat))
  = Nat.iter 4 S 0%nat.
Proof.
  apply (run_catches_up S (fun _ n => n) 4 2000 (mkMainApp 1000 0%nat)).
  cbn. discriminate.
Defined.

Lemma run_before_deadline_witness :
  run S (fun _ n => n) [(900, [mkEvent KEYDOWN K_UP]); (1000, [])]
    (mkMainApp 1000 0%nat)
  = mkMainApp 1000 0%nat.
Proof.
  apply (run_before_deadline S (fun _ n => n)
           [(900, [mkEvent KEYDOWN K_UP]); (1000, [])] (mkMainApp 1000 0%nat)).
  - repeat constructor; cbn; discriminate.
  - repeat constructor.
Defined.

End MainRuns.

(** ** Projectiles over several steps *)
Module ProjectileRuns.
Import Pygame Math Projectile.
Local Open Scope Q_scope.

Lemma steps_blueprint (n : nat) (p : Projectile) :
  _blueprint (steps n p) = _blueprint p.
Proof.
  induction n as [|n IH]; [reflexivity|].
  now rewrite ProjectileFacts.steps_S, ProjectileFacts.process_logic_blueprint.
Qed.

Lemma steps_dir (n : nat) (p : Projectile) : _dir (steps n p) = _dir p.
Proof.
  induction n as [|n IH]; [reflexivity|].
  now rewrite ProjectileFacts.steps_S, ProjectileFacts.process_logic_dir.
Qed.

(** X16: [DELETED] is final: no number of further steps brings a
    deleted projectile back to [MOVING], even if its position comes
    back inside the arena. *)
Theorem deleted_is_final (n : nat) (p : Projectile)
    (Hd : state p = DELETED) :
  state (steps n p) = DELETED.
Proof.
  induction n as [|n IH]; [exact Hd|].
  rewrite ProjectileFacts.steps_S, ProjectileFacts.process_logic_state, IH.
  now destruct (_oos_collision _).
Qed.

Lemma deleted_is_final_witness :
  state (steps 3 (mkProjectile arena (mkVector2 200 0) (mkVector2 (-15) 300)
                    DELETED)) = DELETED /\
  _oos_collision
    (steps 3 (mkProjectile arena (mkVector2 200 0) (mkVector2 (-15) 300)
                DELETED)) = false.
Proof.
  split; [|reflexivity].
  apply (deleted_is_final 3). reflexivity.
Defined.

(** X17: a projectile is still [MOVING] after [n] steps exactly when it
    was [MOVING] at the start and its position was inside the arena
    after each of these steps. *)
Theorem moving_iff_inside (n : nat) (p : Projectile) :
  state (steps n p) = MOVING <->
  state p = MOVING /\
  forall k, (1 <= k <= n)%nat -> _oos_collision (steps k p) = false.
Proof.
  split.
  - induction n as [|n IH]; intros Hm.
    + split; [exact Hm|]. intros k Hk. lia.
    + rewrite ProjectileFacts.steps_S, ProjectileFacts.process_logic_state,
        <- ProjectileFacts.steps_S in Hm.
      destruct (_oos_collision (steps (S n) p)) eqn:E; [discriminate|].
      destruct (IH Hm) as [H0 Hk]. split; [exact H0|].
      intros k Hkn. destruct (decide (k = S n)) as [->|Hne]; [exact E|].
      apply Hk. lia.
  - intros [H0 Hk]. now apply ProjectileFacts.steps_inside_moving.
Qed.

(** X19: a projectile with the zero direction never moves; inside the
    arena and [MOVING] it stays [MOVING] for ever. *)
Theorem zero_direction_stays (n : nat) (p : Projectile)
    (Hdir : x (_dir p) == 0 /\ y (_dir p) == 0)
    (Hin : _oos_collision p = false)
    (Hm : state p = MOVING) :
  Veq (_curr_pos (steps n p)) (_curr_pos p) /\
  state (steps n p) = MOVING.
Proof.
  destruct Hdir as [Hx Hy].
  assert (Hpos : forall k, Veq (_curr_pos (steps k p)) (_curr_pos p)).
  { induction k as [|k IH]; [split; reflexivity|].
    destruct IH as [IHx IHy].
    rewrite ProjectileFacts.steps_S, ProjectileFacts.process_logic_pos.
    unfold velocity, speed. rewrite steps_dir.
    split; cbn [add scale x y]; [rewrite IHx, Hx|rewrite IHy, Hy]; ring. }
  split; [apply Hpos|].
  apply ProjectileFacts.steps_inside_moving; [exact Hm|]. intros k _.
  unfold _oos_collision in *. rewrite steps_blueprint.
  destruct (Hpos k) as [Hkx Hky].
  rewrite <- Hin. f_equal.
  destruct (collidepoint (rect (_blueprint p)) (x (_curr_pos p))
              (y (_curr_pos p))) eqn:E.
  - apply ProjectileFacts.collidepoint_true_iff.
    apply ProjectileFacts.collidepoint_true_iff in E.
    rewrite Hkx, Hky. exact E.
  - apply ProjectileFacts.collidepoint_false_iff.
    apply ProjectileFacts.collidepoint_false_iff in E.
    rewrite Hkx, Hky. exact E.
Qed.

Lemma zero_direction_stays_witness :
  state (steps 5 (init arena (mkVector2 0 0) (mkVector2 300 300))) = MOVING.
Proof.
  apply (zero_direction_stays 5 (init arena (mkVector2 0 0) (mkVector2 300 300)));
    [split; reflexivity|reflexivity|reflexivity].
Defined.

(** [get_render_position] raises (the [ValueError] of [lerp])
    exactly when the fraction is below 0 or above 1. *)
Lemma get_render_position_error (p : Projectile) (f : Q) :
  (get_render_position p f).1 = None <-> f < 0 \/ 1 < f.
Proof.
  unfold get_render_position, lerp. cbn [fst].
  destruct (Qle_bool 0 f) eqn:E0; destruct (Qle_bool f 1) eqn:E1;
    cbn [negb orb];
    try apply Qle_bool_iff in E0; try apply Qle_bool_iff in E1;
    try apply ProjectileFacts.Qle_bool_false_iff in E0;
    try apply ProjectileFacts.Qle_bool_false_iff in E1;
    split; intros H; try reflexivity; try discriminate; try tauto.
  exfalso. destruct H; Lqa.lra.
Qed.

End ProjectileRuns.

(** ** The projectile manager over several ticks *)
Module ManagerRuns.
Import Math Manager.
Import Projectile (Projectile, MOVING, DELETED, state, steps,
  _oos_collision).
Local Open Scope Q_scope.

(** What the set holds after one tick. *)
Lemma process_logic_lookup (self : ProjectileManager) (id : nat)
    (p' : Projectile) :
  _projectiles (process_logic self) !! id = Some p' <->
  exists p, _projectiles self !! id = Some p /\
            p' = Projectile.process_logic p /\
            state p' = MOVING.
Proof.
  destruct (ManagerFacts.loop_spec self) as (_ & Hm & Hr).
  unfold process_logic.
  destruct (loop self) as [[projs rm] called]. cbn [fst snd] in *.
  cbn [_projectiles].
  rewrite map_lookup_filter_Some. cbn [fst]. rewrite Hm, fmap_Some, Hr.
  split.
  - intros [(p & Hp & ->) Hkeep]. exists p. split; [exact Hp|].
    split; [reflexivity|]. apply ManagerFacts.state_not_DELETED. intros Hs.
    apply Hkeep. eauto.
  - intros (p & Hp & -> & Hs). split; [eauto|].
    intros (q & Hq & Hd). rewrite Hp in Hq. injection Hq as <-.
    congruence.
Qed.

Lemma process_logic_subseteq (self : ProjectileManager) :
  dom (_projectiles (process_logic self)) ⊆ dom (_projectiles self).
Proof.
  intros id. rewrite !elem_of_dom. intros [p' Hp'].
  apply process_logic_lookup in Hp'. destruct Hp' as (p & Hp & _). eauto.
Qed.

(** X21: [create_projectile] adds exactly one projectile, under an
    identity that was not in the set: it is [MOVING], has the given
    direction and position and the manager's blueprint, and every
    projectile already in the set is kept as it was. *)
Theorem create_projectile_adds_one (dir pos : Vector2)
    (self : ProjectileManager) :
  exists id,
    _projectiles self !! id = None /\
    _projectiles (create_projectile dir pos self) !! id
    = Some (Projectile.mkProjectile (_blueprint self) dir pos MOVING) /\
    (forall id' p, _projectiles self !! id' = Some p ->
                   _projectiles (create_projectile dir pos self) !! id'
                   = Some p) /\
    size (_projectiles (create_projectile dir pos self))
    = S (size (_projectiles self)) /\
    _blueprint (create_projectile dir pos self) = _blueprint self.
Proof.
  exists (fresh (dom (_projectiles self))).
  assert (Hfresh : _projectiles self !! fresh (dom (_projectiles self)) = None).
  { apply not_elem_of_dom, is_fresh. }
  unfold create_projectile. cbn [_projectiles _blueprint].
  split; [exact Hfresh|]. split; [apply lookup_insert_eq|]. split.
  - intros id' p Hp. rewrite lookup_insert_ne; [exact Hp|]. congruence.
  - split; [now apply map_size_insert_None|reflexivity].
Qed.

(** A tick never adds a projectile and never brings one back: the
    identities in the set afterwards were in it before, and the set is
    no larger. *)
Lemma process_logic_shrinks (self : ProjectileManager) :
  dom (_projectiles (process_logic self)) ⊆ dom (_projectiles self) /\
  (size (_projectiles (process_logic self))
   <= size (_projectiles self))%nat.
Proof.
  split; [apply process_logic_subseteq|].
  rewrite <- !size_dom. apply subseteq_size, process_logic_subseteq.
Qed.

(** X22: a projectile of the set survives a tick exactly when it was
    [MOVING] and its next position is inside the arena; otherwise it is
    no longer in the set after the tick. *)
Theorem process_logic_survivors (self : ProjectileManager) (id : nat)
    (p : Projectile)
    (Hp : _projectiles self !! id = Some p) :
  (_projectiles (process_logic self) !! id
   = Some (Projectile.process_logic p) <->
   state p = MOVING /\ _oos_collision (Projectile.process_logic p) = false) /\
  (_projectiles (process_logic self) !! id = None <->
   state p = DELETED \/ _oos_collision (Projectile.process_logic p) = true).
Proof.
  assert (Hstate : state (Projectile.process_logic p) = MOVING <->
            state p = MOVING /\
            _oos_collision (Projectile.process_logic p) = false).
  { rewrite ProjectileFacts.process_logic_state.
    destruct (_oos_collision (Projectile.process_logic p));
      split; intros H; try tauto; try discriminate.
    destruct H; discriminate. }
  split.
  - rewrite process_logic_lookup, <- Hstate. split.
    + intros (q & Hq & _ & Hs). exact Hs.
    + intros Hs. exists p. auto.
  - destruct (_projectiles (process_logic self) !! id) as [p'|] eqn:E.
    + apply process_logic_lookup in E. destruct E as (q & Hq & -> & Hs).
      rewrite Hp in Hq. injection Hq as <-.
      apply Hstate in Hs. destruct Hs as [Hs Ho].
      split; [discriminate|]. intros [H|H]; congruence.
    + split; [intros _|reflexivity].
      destruct (state p) eqn:Es; [|now left].
      destruct (_oos_collision (Projectile.process_logic p)) eqn:Eo;
        [now right|].
      assert (Hk : _projectiles (process_logic self) !! id
                   = Some (Projectile.process_logic p)).
      { apply process_logic_lookup. exists p. split; [exact Hp|].
        split; [reflexivity|]. apply Hstate. auto. }
      congruence.
Qed.

Lemma process_logic_survivors_witness :
  _projectiles (process_logic two_shots) !! 0%nat = None.
Proof.
  assert (H0 : _projectiles two_shots !! 0%nat = Some Projectile.eastbound)
    by (vm_compute; reflexivity).
  apply (process_logic_survivors two_shots 0 Projectile.eastbound H0).
  right. reflexivity.
Defined.

Lemma ticks_S (n : nat) (self : ProjectileManager) :
  ticks (S n) self = process_logic (ticks n self).
Proof. reflexivity. Qed.

(** X23: after one or more ticks the set holds exactly the projectiles
    of the starting set that are still [MOVING] after that many steps,
    each stepped once per tick. *)
Theorem ticks_lookup (n : nat) (self : ProjectileManager) (id : nat)
    (p' : Projectile) :
  _projectiles (ticks (S n) self) !! id = Some p' <->
  exists p, _projectiles self !! id = Some p /\
            p' = steps (S n) p /\
            state p' = MOVING.
Proof.
  revert p'. induction n as [|n IH]; intros p'.
  - rewrite ticks_S. cbn [ticks Nat.iter]. apply process_logic_lookup.
  - rewrite ticks_S, process_logic_lookup. split.
    + intros (q & Hq & -> & Hs). apply IH in Hq.
      destruct Hq as (p & Hp & -> & _). exists p. split; [exact Hp|].
      rewrite (ProjectileFacts.steps_S (S n)). auto.
    + intros (p & Hp & -> & Hs).
      rewrite (ProjectileFacts.steps_S (S n)) in Hs |- *.
      exists (steps (S n) p). split; [|auto].
      apply IH. exists p. split; [exact Hp|]. split; [reflexivity|].
      rewrite ProjectileFacts.process_logic_state in Hs.
      destruct (_oos_collision _); [discriminate|exact Hs].
Qed.

Lemma render_None_iff (entry : nat * Projectile) (interp : Q) :
  (Projectile.get_render_position entry.2 interp).1 = None <->
  interp < 0 \/ 1 < interp.
Proof.
  unfold Projectile.get_render_position, lerp. cbn [fst].
  destruct (Qle_bool 0 interp) eqn:E0; destruct (Qle_bool interp 1) eqn:E1;
    cbn [negb orb];
    try apply Qle_bool_iff in E0; try apply Qle_bool_iff in E1;
    try apply ProjectileFacts.Qle_bool_false_iff in E0;
    try apply ProjectileFacts.Qle_bool_false_iff in E1;
    split; intros H; try reflexivity; try discriminate; try tauto.
  exfalso. destruct H; Lqa.lra.
Qed.

(** X24: [build_surface] raises exactly when the fraction is outside
    [0,1] and there is a projectile to draw; with no projectile it
    returns the empty surface for any fraction. *)
Theorem build_surface_error (self : ProjectileManager) (interp : Q) :
  (build_surface self interp = None <->
   _projectiles self <> ∅ /\ (interp < 0 \/ 1 < interp)) /\
  (_projectiles self = ∅ -> build_surface self interp = Some []).
Proof.
  split.
  - unfold build_surface. rewrite mapM_None, Exists_exists. split.
    + intros (entry & Hin & Hnone). split.
      * intros Hempty. rewrite Hempty, map_to_list_empty in Hin.
        now apply not_elem_of_nil in Hin.
      * apply (render_None_iff entry).
        destruct (Projectile.get_render_position entry.2 interp).1;
          [discriminate|reflexivity].
    + intros [Hne Hout].
      destruct (map_to_list (_projectiles self)) as [|entry rest] eqn:E.
      * apply map_to_list_empty_iff in E. contradiction.
      * exists entry. split; [apply elem_of_cons; auto|].
        apply (render_None_iff entry) in Hout. now rewrite Hout.
  - intros Hempty. unfold build_surface.
    now rewrite Hempty, map_to_list_empty.
Qed.

End ManagerRuns.

(** ** Finding the turret in the terrain *)
Module TurretLocFacts.
Import Ascii TurretLoc.

Lemma index_None (c : ascii) (row : list ascii) :
  index c row = None <-> c ∉ row.
Proof.
  induction row as [|c' rest IH]; cbn [index].
  - split; [intros _; apply not_elem_of_nil|reflexivity].
  - rewrite not_elem_of_cons. destruct (Ascii.eqb_spec c' c) as [->|Hne].
    + split; [discriminate|]. intros [H _]. congruence.
    + destruct (index c rest) as [j|].
      * split; [discriminate|]. intros [_ H]. apply IH in H. discriminate.
      * split; [|reflexivity]. intros _. split; [congruence|now apply IH].
Qed.

Lemma index_Some (c : ascii) (row : list ascii) (j : nat) :
  index c row = Some j ->
  row !! j = Some c /\ forall j', j' < j -> row !! j' <> Some c.
Proof.
  revert j. induction row as [|c' rest IH]; intros j; cbn [index].
  - discriminate.
  - destruct (Ascii.eqb_spec c' c) as [->|Hne].
    + intros [= <-]. split; [reflexivity|]. intros j' Hj'. lia.
    + destruct (index c rest) as [k|]; [|discriminate].
      intros [= <-]. destruct (IH k eq_refl) as [Hk Hfirst].
      split; [exact Hk|]. intros [|j'] Hj'; cbn.
      * congruence.
      * apply Hfirst. lia.
Qed.

Lemma find_from_Some (terrain : list (list ascii)) (i j i' : nat) :
  find_from i terrain = Some (j, i') ->
  exists k row,
    i' = i + k /\ terrain !! k = Some row /\ index CHAR row = Some j /\
    forall k' row', k' < k -> terrain !! k' = Some row' -> CHAR ∉ row'.
Proof.
  revert i. induction terrain as [|row rest IH]; intros i; cbn [find_from].
  - discriminate.
  - destruct (index CHAR row) as [j0|] eqn:E.
    + intros [= <- <-]. exists 0, row.
      split; [lia|]. split; [reflexivity|]. split; [exact E|].
      intros k' row' Hk'. lia.
    + intros Hf. destruct (IH _ Hf) as (k & row1 & -> & Hrow & Hidx & Hbefore).
      exists (S k), row1. split; [lia|]. split; [exact Hrow|].
      split; [exact Hidx|]. intros [|k'] row' Hk' Hrow'; cbn in Hrow'.
      * injection Hrow' as <-. now apply index_None.
      * apply (Hbefore k'); [lia|exact Hrow'].
Qed.

Lemma find_from_None (terrain : list (list ascii)) (i : nat) :
  find_from i terrain = None <-> forall row, row ∈ terrain -> CHAR ∉ row.
Proof.
  revert i. induction terrain as [|row rest IH]; intros i; cbn [find_from].
  - split; [|reflexivity]. intros _ row' H. now apply not_elem_of_nil in H.
  - destruct (index CHAR row) as [j0|] eqn:E.
    + split; [discriminate|]. intros H.
      assert (Hn : index CHAR row = None)
        by (apply index_None, H, elem_of_cons; auto).
      congruence.
    + rewrite IH. apply index_None in E. split.
      * intros H row' Hin. apply elem_of_cons in Hin as [->|Hin]; auto.
      * intros H row' Hin. apply H, elem_of_cons. auto.
Qed.

(** X27: when [_find_in_blueprint] finds the turret, the terrain has
    the character 'H' at the column and row returned, no 'H' before it
    in that row and none in any earlier row. *)
Theorem _find_in_blueprint_first (terrain : list (list ascii)) (col row : nat)
    (Hfound : _find_in_blueprint terrain = Some (col, row)) :
  exists line,
    terrain !! row = Some line /\
    line !! col = Some CHAR /\
    (forall col', col' < col -> line !! col' <> Some CHAR) /\
    (forall row' line', row' < row -> terrain !! row' = Some line' ->
                        CHAR ∉ line').
Proof.
  unfold _find_in_blueprint in Hfound.
  destruct (find_from_Some _ _ _ _ Hfound)
    as (k & line & -> & Hline & Hidx & Hbefore).
  destruct (index_Some _ _ _ Hidx) as [Hcol Hfirst].
  exists line. cbn [Nat.add]. auto.
Qed.

Lemma _find_in_blueprint_first_witness :
  exists line,
    [[" "; "#"]; ["#"; " "; "H"; "H"]; ["H"]]%char !! 1 = Some line /\
    line !! 2 = Some CHAR.
Proof.
  destruct (_find_in_blueprint_first
              [[" "; "#"]; ["#"; " "; "H"; "H"]; ["H"]]%char 2 1 eq_refl)
    as (line & Hl & Hc & _).
  exists line. auto.
Defined.

(** X28: [_find_in_blueprint] returns [None], without raising, exactly
    when no row of the terrain holds the character 'H'; an empty
    terrain is such a case. *)
Theorem _find_in_blueprint_none (terrain : list (list ascii)) :
  (_find_in_blueprint terrain = None <->
   forall line, line ∈ terrain -> CHAR ∉ line) /\
  _find_in_blueprint [] = None.
Proof.
  split; [apply find_from_None|reflexivity].
Qed.

End TurretLocFacts.
